(** * statechart/runtime.py: Metadata and Scope

    A shallow embedding of the runtime module of the statechart package:
    [StateRuntimeData], [Metadata] (the registry of active states and of
    history memory) and [Scope] (a [ChainMap] whose assignment writes
    through to the layer that already holds the key).

    Python dictionaries are finite maps ([gmap]); dictionary equality in
    Python ignores insertion order, and so does [gmap]. A method of
    [Metadata] is a computation over the one [Metadata] object it is called
    on: it may raise, it leaves a final [Metadata] behind in either case, and
    it emits log records. *)

From stdpp Require Import gmap strings list fin_maps functions.

(** ** Python values shared by both classes *)

(** The exceptions this module raises: [RuntimeError] by [activate],
    [KeyError] by a subscript on a dictionary that lacks the key, and
    [IndexError] by a subscript on a list that is too short. *)
Inductive exn (K : Type) : Type :=
  | RuntimeError (msg : string)
  | KeyError (key : K)
  | IndexError (msg : string).
Arguments RuntimeError {K} msg.
Arguments KeyError {K} key.
Arguments IndexError {K} msg.

(** How a call ends: it returns a value or it raises. *)
Inductive outcome (K A : Type) : Type :=
  | Return (a : A)
  | Raise (e : exn K).
Arguments Return {K A} a.
Arguments Raise {K A} e.

(** [key in mapping] *)
Definition contains `{Countable K} {V : Type} (mapping : gmap K V) (key : K) : bool :=
  bool_decide (is_Some (mapping !! key)).

(** [str(b)] for a Python bool *)
Definition str_bool (b : bool) : string :=
  if b then "True" else "False".

(** One call of [logger.info(fmt, *args)]: the format and its arguments. *)
Definition LogRecord : Type := string * list string.

(** ** StateRuntimeData and Metadata *)

Section Runtime.

(** A [State] is an object of statechart/states.py; the runtime uses such an
    object in three ways only: as a dictionary key (hashable, compared by
    identity), through [state.name] (for the log) and through
    [state.context] (the owning parent, [None] for the chart root). The
    truth test [if state.context:] is the test that the attribute is set. *)
Context `{Countable State}.
Context {Event Transition : Type}.
Variable name : State → string.
Variable context : State → option State.

(** [class StateRuntimeData]; [__init__] gives [current_state = None] and
    [state_set = list()]. The [_logger] attribute is the module's logger,
    the same for every object. *)
Record StateRuntimeData : Type := mkStateRuntimeData {
  current_state : option State;
  state_set : list State
}.

Definition StateRuntimeData_init : StateRuntimeData :=
  {| current_state := None; state_set := [] |}.

(** [data.current_state = v] *)
Definition set_current_state (v : option State) (data : StateRuntimeData) : StateRuntimeData :=
  {| current_state := v; state_set := state_set data |}.

(** [class Metadata] *)
Record Metadata : Type := mkMetadata {
  active_states : gmap State StateRuntimeData;
  event : option Event;
  transition : option Transition;
  _history_states : gmap State State
}.

(** [Metadata.__init__] *)
Definition Metadata_init : Metadata :=
  {| active_states := ∅; event := None; transition := None; _history_states := ∅ |}.

Definition with_active_states (f : gmap State StateRuntimeData → gmap State StateRuntimeData)
    (self : Metadata) : Metadata :=
  {| active_states := f (active_states self); event := event self;
     transition := transition self; _history_states := _history_states self |}.

Definition with_history_states (f : gmap State State → gmap State State)
    (self : Metadata) : Metadata :=
  {| active_states := active_states self; event := event self;
     transition := transition self; _history_states := f (_history_states self) |}.

(** *** The monad of methods: state [self], exceptions, log output *)

Record run (A : Type) : Type := mkRun {
  result : outcome State A;
  final : Metadata;
  logged : list LogRecord
}.
Arguments mkRun {A} result final logged.
Arguments result {A} r.
Arguments final {A} r.
Arguments logged {A} r.

Definition M (A : Type) : Type := Metadata → run A.

#[local] Instance M_ret : MRet M := λ A a self, mkRun (Return a) self [].

#[local] Instance M_bind : MBind M := λ A B k c self,
  let r := c self in
  match result r with
  | Return a => let r' := k a (final r) in
                mkRun (result r') (final r') (logged r ++ logged r')
  | Raise e => mkRun (Raise e) (final r) (logged r)
  end.

(** read an attribute of [self] *)
Definition gets {A : Type} (f : Metadata → A) : M A :=
  λ self, mkRun (Return (f self)) self [].

(** update [self] in place *)
Definition modify (f : Metadata → Metadata) : M unit :=
  λ self, mkRun (Return tt) (f self) [].

(** [raise e] *)
Definition raise {A : Type} (e : exn State) : M A :=
  λ self, mkRun (Raise e) self [].

(** [self._logger.info(fmt, *args)] *)
Definition info (fmt : string) (args : list string) : M unit :=
  λ self, mkRun (Return tt) self [(fmt, args)].

(** [self.active_states[state] = data] *)
Definition active_states_setitem (state : State) (data : StateRuntimeData) : M unit :=
  modify (with_active_states (<[state := data]>)).

(** [data = self.active_states[state]; data.current_state = v]: the record
    stored under [state] is updated in place. Every record is created by
    [activate] for one key and handed to nobody else, so the update shows
    under that key only. A missing key raises [KeyError]. *)
Definition active_states_set_current (state : State) (v : option State) : M unit :=
  active ← gets active_states;
  match active !! state with
  | Some _ => modify (with_active_states (alter (set_current_state v) state))
  | None => raise (KeyError state)
  end.

(** [del self.active_states[state]] *)
Definition active_states_delitem (state : State) : M unit :=
  active ← gets active_states;
  if contains active state
  then modify (with_active_states (delete state))
  else raise (KeyError state).

(** *** The methods of Metadata *)

(** [Metadata.activate] *)
Definition activate (state : State) : M unit :=
  info "Activate %s" [name state];;
  active ← gets active_states;
  (if negb (contains active state)
   then active_states_setitem state StateRuntimeData_init
   else mret tt);;
  active_states_set_current state None;;
  match context state with
  | Some parent =>
      active ← gets active_states;
      if negb (contains active parent)
      then raise (RuntimeError "Parent state not activated")
      else active_states_set_current parent (Some state)
  | None => mret tt
  end.

(** [Metadata.deactivate] *)
Definition deactivate (state : State) : M unit :=
  info "Deactivate %s" [name state];;
  active ← gets active_states;
  if contains active state
  then active_states_set_current state None;;
       active_states_delitem state
  else mret tt.

(** [Metadata.get_history_state] *)
Definition get_history_state (history_state : State) : M State :=
  info "Get history state %s" [name history_state];;
  history ← gets _history_states;
  match history !! history_state with
  | Some actual_state => mret actual_state
  | None => raise (KeyError history_state)
  end.

(** [Metadata.has_history_info] *)
Definition has_history_info (history_state : State) : M bool :=
  let status := false in
  history ← gets _history_states;
  let status := if contains history history_state then true else status in
  info "Has history info %s? %s" [name history_state; str_bool status];;
  mret status.

(** [Metadata.is_active] *)
Definition is_active (state : State) : M bool :=
  let status := false in
  active ← gets active_states;
  let status := if contains active state then true else status in
  info "Is %s active? %s" [name state; str_bool status];;
  mret status.

(** [Metadata.reset] *)
Definition reset : M unit :=
  info "Reset active states & history" [];;
  modify (with_active_states (λ _, ∅));;
  modify (with_history_states (λ _, ∅)).

(** [Metadata.store_history_info] *)
Definition store_history_info (history_state actual_state : State) : M unit :=
  info "Store history state %s for actual state %s"
       [name history_state; name actual_state];;
  modify (with_history_states (<[history_state := actual_state]>)).

(** *** Words of the specification *)

(** [state] is in the registry of active states of [self]. *)
Definition registered (self : Metadata) (state : State) : Prop :=
  is_Some (active_states self !! state).

(** What [activate] leaves under the key [state] before it looks at the
    context: the record that was there, or a new one, with [current_state]
    cleared. *)
Definition entered (state : State) (active : gmap State StateRuntimeData)
    : gmap State StateRuntimeData :=
  alter (set_current_state None) state
    (if contains active state then active else <[state := StateRuntimeData_init]> active).

(** The registry is closed under [context]: the context of every active
    state is active too. *)
Definition parent_closed (self : Metadata) : Prop :=
  ∀ state parent,
    registered self state → context state = Some parent → registered self parent.

End Runtime.

Arguments StateRuntimeData State : clear implicits.
Arguments Metadata State {_ _} Event Transition.
Arguments run State {_ _} Event Transition A.
Arguments M State {_ _} Event Transition A.
Arguments mkRun {State _ _ Event Transition A} result final logged.
Arguments result {State _ _ Event Transition A} r.
Arguments final {State _ _ Event Transition A} r.
Arguments logged {State _ _ Event Transition A} r.

(** ** Scope *)

Section ScopeDefs.

(** Keys are hashable Python values, values are any Python values. *)
Context `{Countable K} {V : Type}.

(** The layers of a [ChainMap] are dictionary objects the chain refers to
    and does not own: the same dictionary may be a layer of several chains,
    or twice a layer of one. A dictionary object is a reference [ref], the
    store gives the contents of each. *)
Definition ref : Type := positive.
Definition Store : Type := ref → gmap K V.

(** [class Scope(ChainMap)]: its one attribute is [maps], the list of
    layers. [ChainMap.__init__] sets [self.maps = list(maps) or [{}]], so a
    chain comes to life with at least one layer. *)
Record Scope : Type := mkScope { maps : list ref }.

(** [mapping[key] = value] on the dictionary object [mapping] *)
Definition dict_setitem (mapping : ref) (key : K) (value : V) (σ : Store) : Store :=
  <[mapping := <[key := value]> (σ mapping)]> σ.

(** [ChainMap.__getitem__], inherited by [Scope] from the standard library:
    [[
    for mapping in self.maps:
        try:
            return mapping[key]
        except KeyError:
            pass
    return self.__missing__(key)      # raises KeyError(key)
    ]] *)
Fixpoint getitem_loop (σ : Store) (key : K) (ms : list ref) : outcome K V :=
  match ms with
  | [] => Raise (KeyError key)
  | mapping :: ms' =>
      match σ mapping !! key with
      | Some value => Return value
      | None => getitem_loop σ key ms'
      end
  end.

Definition Scope_getitem (self : Scope) (key : K) (σ : Store) : outcome K V :=
  getitem_loop σ key (maps self).

(** The loop of [Scope.__setitem__]: [Some σ'] when it returned from inside
    the loop, [None] when it ran off the end of [self.maps]. *)
Fixpoint setitem_loop (σ : Store) (key : K) (value : V) (ms : list ref) : option Store :=
  match ms with
  | [] => None
  | mapping :: ms' =>
      if contains (σ mapping) key
      then Some (dict_setitem mapping key value σ)
      else setitem_loop σ key value ms'
  end.

(** [Scope.__setitem__]; [self.maps[0]] raises [IndexError] on an empty
    list. *)
Definition Scope_setitem (self : Scope) (key : K) (value : V) (σ : Store)
    : outcome K unit * Store :=
  match setitem_loop σ key value (maps self) with
  | Some σ' => (Return tt, σ')
  | None =>
      match maps self with
      | mapping0 :: _ => (Return tt, dict_setitem mapping0 key value σ)
      | [] => (Raise (IndexError "list index out of range"), σ)
      end
  end.

(** Layer number [i] of the chain, the dictionary [mapping], is the first
    one in chain order that defines [key]. *)
Definition first_defining (σ : Store) (ms : list ref) (key : K) (i : nat) (mapping : ref) : Prop :=
  ms !! i = Some mapping ∧ is_Some (σ mapping !! key) ∧
  ∀ j mapping', j < i → ms !! j = Some mapping' → σ mapping' !! key = None.

(** No layer of the chain defines [key]. *)
Definition undefined_in (σ : Store) (ms : list ref) (key : K) : Prop :=
  ∀ mapping, mapping ∈ ms → σ mapping !! key = None.

End ScopeDefs.

Arguments Store K {_ _} V.

(** ** A chart to run the definitions on

    The keyboard chart of the package's tests, as far as the runtime sees
    it: the root [statechart], the concurrent state [keyboard] in it, the
    region [caps_lock] in that, and its two states. States are numbered in
    the order the test creates them. *)

Module Keyboard.

Definition statechart : positive := 1.
Definition keyboard : positive := 2.
Definition caps_lock : positive := 3.
Definition caps_lock_on : positive := 4.
Definition caps_lock_off : positive := 5.

Definition name (state : positive) : string :=
  match state with
  | 1 => "statechart"
  | 2 => "keyboard"
  | 3 => "caps_lock"
  | 4 => "caps_lock_on"
  | 5 => "caps_lock_off"
  | _ => "anon"
  end%positive.

Definition context (state : positive) : option positive :=
  match state with
  | 2 => Some statechart
  | 3 => Some keyboard
  | 4 | 5 => Some caps_lock
  | _ => None
  end%positive.

(** Events and transitions are known to the runtime by reference only. *)
Abbreviation Metadata := (Metadata positive string string).

Definition fresh : Metadata := Metadata_init.

(** [statechart], [keyboard] and [caps_lock] activated top-down. *)
Definition started : Metadata :=
  final (activate name context caps_lock
    (final (activate name context keyboard
      (final (activate name context statechart fresh))))).

(** Two layers of variables, the chart's (dictionary 1) and a state's
    (dictionary 2), the inner one first in the chain. *)
Definition layers : Store string Z :=
  <[2%positive := {[ "x" := 1%Z ]}]> (<[1%positive := {[ "x" := 7%Z; "y" := 2%Z ]}]> (λ _, ∅)).

Definition scope : Scope := {| maps := [2%positive; 1%positive] |}.

(** [caps_lock_on] entered after the start. *)
Definition caps_on : Metadata :=
  final (activate name context caps_lock_on started).

(** A history state, the sixth object: [name] and [context] know it as
    any other state. *)
Definition history : positive := 6.

(** The chart's own chain: its dictionary alone. *)
Definition chart_scope : Scope := {| maps := [1%positive] |}.

(** A chain whose list of layers was emptied. *)
Definition no_scope : Scope := {| maps := [] |}.

End Keyboard.

(** * Properties of Metadata *)

Section RuntimeTheory.

Context `{Countable State} {Event Transition : Type}.
Variable name : State → string.
Variable context : State → option State.

#[local] Abbreviation Metadata := (Metadata State Event Transition).
#[local] Abbreviation Records := (gmap State (StateRuntimeData State)).
#[local] Abbreviation activate := (activate (Event:=Event) (Transition:=Transition) name context).
#[local] Abbreviation deactivate := (deactivate (Event:=Event) (Transition:=Transition) name).
#[local] Abbreviation is_active := (is_active (Event:=Event) (Transition:=Transition) name).
#[local] Abbreviation has_history_info := (has_history_info (Event:=Event) (Transition:=Transition) name).
#[local] Abbreviation get_history_state := (get_history_state (Event:=Event) (Transition:=Transition) name).
#[local] Abbreviation store_history_info := (store_history_info (Event:=Event) (Transition:=Transition) name).
#[local] Abbreviation reset := (reset (Event:=Event) (Transition:=Transition)).

Implicit Types (self : Metadata) (active : Records) (state parent : State).

Lemma contains_true {V : Type} (mapping : gmap State V) (key : State) :
  contains mapping key = true ↔ is_Some (mapping !! key).
Proof. unfold contains. apply bool_decide_eq_true. Qed.

Lemma contains_false {V : Type} (mapping : gmap State V) (key : State) :
  contains mapping key = false ↔ mapping !! key = None.
Proof.
  unfold contains. rewrite bool_decide_eq_false. symmetry. apply eq_None_not_Some.
Qed.

Lemma entered_lookup_eq state active :
  entered state active !! state =
    Some (set_current_state None (default StateRuntimeData_init (active !! state))).
Proof.
  unfold entered. rewrite lookup_alter_eq.
  destruct (contains active state) eqn:Hin.
  - apply contains_true in Hin as [data ->]. done.
  - apply contains_false in Hin as Hnone. rewrite lookup_insert_eq, Hnone. done.
Qed.

Lemma entered_lookup_ne state state' active :
  state ≠ state' → entered state active !! state' = active !! state'.
Proof.
  intros Hne. unfold entered. rewrite lookup_alter_ne by done.
  destruct (contains active state); [done|]. by rewrite lookup_insert_ne.
Qed.

Lemma entered_contains state state' active :
  contains (entered state active) state' =
    if decide (state' = state) then true else contains active state'.
Proof.
  case_decide as Heq.
  - subst. apply contains_true. rewrite entered_lookup_eq. eauto.
  - unfold contains. by rewrite entered_lookup_ne.
Qed.

(** [activate] in one piece: the registry after the call and how the call
    ends, by the context of [state]. *)
Lemma activate_run state self :
  activate state self =
    let active := entered state (active_states self) in
    match context state with
    | Some parent =>
        if contains active parent
        then mkRun (Return tt)
               (with_active_states (λ _, alter (set_current_state (Some state)) parent active) self)
               [("Activate %s", [name state])]
        else mkRun (Raise (RuntimeError "Parent state not activated"))
               (with_active_states (λ _, active) self)
               [("Activate %s", [name state])]
    | None =>
        mkRun (Return tt) (with_active_states (λ _, active) self)
          [("Activate %s", [name state])]
    end.
Proof.
  unfold activate, entered, active_states_set_current, active_states_setitem.
  unfold mbind, M_bind, mret, M_ret, gets, modify, raise, info. simpl.
  destruct (contains (active_states self) state) eqn:Hin; simpl.
  - apply contains_true in Hin as Hsome. destruct Hsome as [data Hdata].
    rewrite Hdata. simpl.
    destruct (context state) as [parent|]; simpl; [|done].
    destruct (contains _ parent) eqn:Hp; simpl; [|done].
    apply contains_true in Hp as [pdata ->]. done.
  - rewrite lookup_insert_eq. simpl.
    destruct (context state) as [parent|]; simpl; [|done].
    destruct (contains _ parent) eqn:Hp; simpl; [|done].
    apply contains_true in Hp as [pdata ->]. done.
Qed.

(** [deactivate] in one piece. *)
Lemma deactivate_run state self :
  deactivate state self =
    mkRun (Return tt) (with_active_states (delete state) self)
      [("Deactivate %s", [name state])].
Proof.
  unfold deactivate, active_states_set_current, active_states_delitem.
  unfold mbind, M_bind, mret, M_ret, gets, modify, raise, info. simpl.
  destruct (contains (active_states self) state) eqn:Hin; simpl.
  - apply contains_true in Hin as Hsome. destruct Hsome as [data Hdata].
    rewrite Hdata. simpl.
    assert (contains (alter (set_current_state None) state (active_states self)) state = true) as ->.
    { apply contains_true. rewrite lookup_alter_eq, Hdata. eauto. }
    simpl. unfold with_active_states. simpl. f_equal. f_equal.
    apply map_eq. intros k. destruct (decide (k = state)) as [->|Hne].
    + by rewrite !lookup_delete_eq.
    + rewrite !lookup_delete_ne by done. by rewrite lookup_alter_ne.
  - apply contains_false in Hin. unfold with_active_states.
    rewrite delete_id by done. by destruct self.
Qed.

(** The queries, in one piece. *)
Lemma is_active_run state self :
  is_active state self =
    mkRun (Return (contains (active_states self) state)) self
      [("Is %s active? %s", [name state; str_bool (contains (active_states self) state)])].
Proof.
  unfold is_active, mbind, M_bind, mret, M_ret, gets, info. simpl.
  by destruct (contains (active_states self) state).
Qed.

Lemma has_history_info_run state self :
  has_history_info state self =
    mkRun (Return (contains (_history_states self) state)) self
      [("Has history info %s? %s",
        [name state; str_bool (contains (_history_states self) state)])].
Proof.
  unfold has_history_info, mbind, M_bind, mret, M_ret, gets, info. simpl.
  by destruct (contains (_history_states self) state).
Qed.

Lemma get_history_state_result state self :
  result (get_history_state state self) =
    match _history_states self !! state with
    | Some actual_state => Return actual_state
    | None => Raise (KeyError state)
    end.
Proof.
  unfold get_history_state, mbind, M_bind, mret, M_ret, gets, raise, info.
  simpl. by destruct (_history_states self !! state).
Qed.

Lemma set_current_state_twice (v w : option State) (data : StateRuntimeData State) :
  set_current_state v (set_current_state w data) = set_current_state v data.
Proof. done. Qed.

Lemma entered_twice state active :
  entered state (entered state active) = entered state active.
Proof.
  apply map_eq. intros k. destruct (decide (k = state)) as [->|Hne].
  - by rewrite !entered_lookup_eq.
  - by rewrite !entered_lookup_ne.
Qed.

(** ** The claims about activate *)

(** Why the claims below are about trees: a state set up as its own
    context passes the parent check by its own insertion, active parent or
    not, and ends up as its own [current_state]. *)
Remark activate_own_context state self :
  context state = Some state →
  result (activate state self) = Return tt
  ∧ current_state <$> active_states (final (activate state self)) !! state
    = Some (Some state).
Proof.
  intros Hctx. rewrite activate_run. simpl. rewrite Hctx, entered_contains.
  rewrite decide_True by done. simpl. split; [done|].
  by rewrite lookup_alter_eq, entered_lookup_eq.
Qed.

(** The chart is a tree under [context] (the specification's data model;
    the State class that builds it is in statechart/states.py): no state is
    its own context. *)
Hypothesis context_tree : ∀ state, context state ≠ Some state.

(** C1. In a chart that is a tree: for a state whose context [parent] is
    set, [activate] raises
    [RuntimeError('Parent state not activated')] whenever [parent] is not
    in the registry of active states, and returns when it is; a state with
    no context is always accepted. *)
Theorem activate_parent_must_be_active state self :
  (∀ parent, context state = Some parent →
     (¬ registered self parent →
        result (activate state self) = Raise (RuntimeError "Parent state not activated"))
     ∧ (registered self parent → result (activate state self) = Return tt))
  ∧ (context state = None → result (activate state self) = Return tt).
Proof.
  rewrite activate_run. simpl. split.
  - intros parent Hctx. rewrite Hctx, entered_contains.
    assert (parent ≠ state) as Hne by (intros ->; by apply (context_tree state)).
    rewrite decide_False by done. split.
    + intros Hout. unfold registered in Hout.
      apply eq_None_not_Some, contains_false in Hout. by rewrite Hout.
    + intros Hreg. apply contains_true in Hreg. by rewrite Hreg.
  - intros Hctx. by rewrite Hctx.
Qed.

(** C2. In a chart that is a tree, after a successful [activate(state)]:
    [state] is in the registry, its record (the one it had, or a new one)
    has [current_state] cleared, and when the context of [state] is set,
    the record of the context has [current_state] equal to [state]. *)
Theorem activate_success_records state self :
  result (activate state self) = Return tt →
  (∃ data, active_states (final (activate state self)) !! state = Some data
           ∧ current_state data = None
           ∧ state_set data = from_option state_set [] (active_states self !! state))
  ∧ (∀ parent, context state = Some parent →
       ∃ pdata, active_states (final (activate state self)) !! parent = Some pdata
                ∧ current_state pdata = Some state).
Proof.
  rewrite activate_run. simpl.
  destruct (context state) as [parent|] eqn:Hctx.
  - assert (parent ≠ state) as Hne by (intros ->; by apply (context_tree state)).
    destruct (contains _ parent) eqn:Hp; simpl; [|discriminate].
    intros _. apply contains_true in Hp as [pdata Hpdata]. split.
    + rewrite lookup_alter_ne by done. rewrite entered_lookup_eq.
      eexists. split; [done|]. split; [done|].
      by destruct (active_states self !! state).
    + intros ? [= <-]. rewrite lookup_alter_eq, Hpdata. simpl. eauto.
  - simpl. intros _. split; [|discriminate].
    rewrite entered_lookup_eq. eexists. split; [done|]. split; [done|].
    by destruct (active_states self !! state).
Qed.

(** C7. [activate] is idempotent: when [activate(state)] succeeds, a second
    call right after it succeeds too and leaves the same Metadata (registry
    with its records, event, transition and history map) as the first. *)
Theorem activate_idempotent state self :
  result (activate state self) = Return tt →
  result (activate state (final (activate state self))) = Return tt
  ∧ final (activate state (final (activate state self))) = final (activate state self).
Proof.
  rewrite (activate_run state (final _)), (activate_run state self). simpl.
  destruct (context state) as [parent|] eqn:Hctx; simpl.
  - destruct (contains (entered state (active_states self)) parent) eqn:Hp;
      simpl; [|discriminate].
    intros _. set (active1 := entered state (active_states self)) in *.
    set (set_child := alter (set_current_state (Some state)) parent).
    assert (contains (entered state (set_child active1)) parent = true) as ->.
    { rewrite entered_contains. case_decide; [done|].
      apply contains_true. apply contains_true in Hp as [pdata Hpdata].
      unfold set_child. rewrite lookup_alter_eq, Hpdata. simpl. eauto. }
    simpl. split; [done|]. unfold with_active_states. simpl. f_equal.
    apply map_eq. intros k. unfold set_child, active1.
    destruct (decide (k = parent)) as [->|Hkp].
    + rewrite !lookup_alter_eq. destruct (decide (parent = state)) as [->|Hps].
      * rewrite !entered_lookup_eq, lookup_alter_eq, entered_lookup_eq. done.
      * assert (state ≠ parent) as Hsp by congruence.
        rewrite (entered_lookup_ne state parent) by exact Hsp.
        rewrite lookup_alter_eq.
        by destruct (entered state (active_states self) !! parent).
    + rewrite !lookup_alter_ne by done. destruct (decide (k = state)) as [->|Hks].
      * rewrite !entered_lookup_eq, lookup_alter_ne by done.
        rewrite entered_lookup_eq. done.
      * assert (state ≠ k) as Hsk by congruence.
        rewrite (entered_lookup_ne state k) by exact Hsk.
        rewrite lookup_alter_ne by done.
        by rewrite (entered_lookup_ne state k).
  - intros _. split; [done|]. unfold with_active_states. simpl.
    by rewrite entered_twice.
Qed.

(** C9. A failed [activate(state)] is not undone: when the call raises,
    the error is the one about the parent, and [state] is in the registry
    afterwards, so [is_active(state)] returns true after the failed call. *)
Theorem activate_failure_leaves_state_active state self e :
  result (activate state self) = Raise e →
  e = RuntimeError "Parent state not activated"
  ∧ registered (final (activate state self)) state
  ∧ result (is_active state (final (activate state self))) = Return true.
Proof.
  rewrite is_active_run, activate_run. simpl.
  destruct (context state) as [parent|]; simpl; [|discriminate].
  destruct (contains _ parent); simpl; [discriminate|].
  intros [= <-]. split; [done|].
  assert (registered (with_active_states (λ _, entered state (active_states self)) self) state)
    as Hreg.
  { unfold registered. simpl. rewrite entered_lookup_eq. eauto. }
  split; [done|]. f_equal. by apply contains_true.
Qed.

(** ** The claims about deactivate, is_active and reset *)

(** C3. [deactivate(state)] returns, and after it [is_active(state)] is
    false; on a state that is not active the call leaves the whole Metadata
    as it was. *)
Theorem deactivate_then_inactive state self :
  result (deactivate state self) = Return tt
  ∧ result (is_active state (final (deactivate state self))) = Return false
  ∧ (¬ registered self state → final (deactivate state self) = self).
Proof.
  rewrite is_active_run, deactivate_run. simpl. split; [done|]. split.
  - f_equal. apply contains_false, lookup_delete_eq.
  - intros Hout. apply eq_None_not_Some in Hout.
    unfold with_active_states. rewrite delete_id by done. by destruct self.
Qed.

(** C8. [is_active(state)] returns true exactly when [state] is a key of
    the registry, returns false otherwise, and leaves the Metadata as it
    was. *)
Theorem is_active_pure_membership state self :
  (result (is_active state self) = Return true ↔ registered self state)
  ∧ (result (is_active state self) = Return false ↔ ¬ registered self state)
  ∧ final (is_active state self) = self.
Proof.
  rewrite is_active_run. simpl. unfold registered. split; [|split; [|done]].
  - rewrite <- contains_true. split; [by intros [= ->]|by intros ->].
  - rewrite <- eq_None_not_Some, <- contains_false.
    split; [by intros [= ->]|by intros ->].
Qed.

(** C5. After [reset()] both maps are empty: [is_active] is false for
    every state and [has_history_info] is false for every history state. *)
Theorem reset_clears_both_maps self :
  result (reset self) = Return tt
  ∧ active_states (final (reset self)) = ∅
  ∧ _history_states (final (reset self)) = ∅
  ∧ (∀ state, result (is_active state (final (reset self))) = Return false)
  ∧ (∀ history_state,
       result (has_history_info history_state (final (reset self))) = Return false).
Proof.
  repeat split; intros; rewrite ?is_active_run, ?has_history_info_run; done.
Qed.

(** C10. In a chart that is a tree, [deactivate(state)] does not touch the
    record of the parent: when
    the context [parent] of [state] is active and its record has
    [current_state] equal to [state], after the call that record is still
    there, unchanged, and still names [state], which is no longer active;
    no entry but the one of [state] is removed or changed. *)
Theorem deactivate_keeps_parent_record state parent pdata self :
  context state = Some parent →
  active_states self !! parent = Some pdata →
  current_state pdata = Some state →
  active_states (final (deactivate state self)) !! parent = Some pdata
  ∧ current_state <$> active_states (final (deactivate state self)) !! parent
      = Some (Some state)
  ∧ active_states (final (deactivate state self)) !! state = None
  ∧ (∀ other, other ≠ state →
       active_states (final (deactivate state self)) !! other = active_states self !! other)
  ∧ _history_states (final (deactivate state self)) = _history_states self.
Proof.
  intros Hctx Hparent Hchild. rewrite deactivate_run. simpl.
  assert (parent ≠ state) as Hne by (intros ->; by apply (context_tree state)).
  split; [by rewrite lookup_delete_ne|].
  split; [rewrite lookup_delete_ne, Hparent by done; simpl; by rewrite Hchild|].
  split; [apply lookup_delete_eq|]. split; [|done].
  intros other Hother. by rewrite lookup_delete_ne.
Qed.

(** ** The claim about the history map *)

(** C4. [get_history_state(h)] raises exactly when [has_history_info(h)]
    is false; after [store_history_info(h, x)], [has_history_info(h)] is
    true and [get_history_state(h)] returns [x], whatever was stored for
    [h] before. *)
Theorem history_lookup_guarded history_state actual_state self :
  ((∃ e, result (get_history_state history_state self) = Raise e)
     ↔ result (has_history_info history_state self) = Return false)
  ∧ result (has_history_info history_state
              (final (store_history_info history_state actual_state self))) = Return true
  ∧ result (get_history_state history_state
              (final (store_history_info history_state actual_state self)))
      = Return actual_state.
Proof.
  rewrite !has_history_info_run, !get_history_state_result. simpl. split; [|split].
  - destruct (_history_states self !! history_state) as [x|] eqn:Hx.
    + assert (contains (_history_states self) history_state = true) as ->
        by (apply contains_true; eauto).
      split; [by intros [e ?]|discriminate].
    + apply contains_false in Hx as ->. split; [done|eauto].
  - f_equal. apply contains_true. rewrite lookup_insert_eq. eauto.
  - by rewrite lookup_insert_eq.
Qed.

(** * More on the methods of Metadata *)

(** The registry [activate] leaves behind, raising or not: when the parent
    is missing, the update of its record is the one step not done. *)
Lemma activate_final_registry state self :
  active_states (final (activate state self)) =
    match context state with
    | Some parent =>
        alter (set_current_state (Some state)) parent (entered state (active_states self))
    | None => entered state (active_states self)
    end.
Proof.
  rewrite activate_run. simpl. destruct (context state) as [parent|]; [|done].
  destruct (contains _ parent) eqn:Hp; [done|]. simpl.
  apply contains_false in Hp. by rewrite alter_id'.
Qed.

Lemma activate_final_rest state self :
  _history_states (final (activate state self)) = _history_states self
  ∧ event (final (activate state self)) = event self
  ∧ transition (final (activate state self)) = transition self.
Proof.
  rewrite activate_run. simpl. destruct (context state) as [parent|]; [|done].
  by destruct (contains _ parent).
Qed.

Lemma activate_registered state other self :
  registered (final (activate state self)) other ↔ other = state ∨ registered self other.
Proof.
  unfold registered. rewrite activate_final_registry.
  assert (is_Some (entered state (active_states self) !! other)
          ↔ other = state ∨ is_Some (active_states self !! other)) as Hent.
  { destruct (decide (other = state)) as [->|Hne].
    - rewrite entered_lookup_eq. split; eauto.
    - rewrite entered_lookup_ne by congruence. split; [eauto|by intros [?|?]]. }
  destruct (context state) as [parent|]; [|done].
  by rewrite lookup_alter_is_Some.
Qed.

Lemma activate_result state self :
  result (activate state self) =
    match context state with
    | Some parent =>
        if decide (parent = state ∨ registered self parent)
        then Return tt else Raise (RuntimeError "Parent state not activated")
    | None => Return tt
    end.
Proof.
  rewrite activate_run. simpl. destruct (context state) as [parent|]; [|done].
  rewrite entered_contains. unfold registered.
  destruct (decide (parent = state)) as [->|Hne].
  - by rewrite decide_True by eauto.
  - destruct (contains (active_states self) parent) eqn:Hp.
    + apply contains_true in Hp. by rewrite decide_True by eauto.
    + apply contains_false in Hp. rewrite decide_False; [done|].
      intros [?|[? ?]]; congruence.
Qed.

(** X1. Whether it returns or raises, [activate(state)] touches the entries
    of [state] and of its context only: every other entry is as before, no
    key is removed, the one key added is [state], and the history map, the
    event and the transition are as before. *)
Theorem activate_frame state self :
  (∀ other, other ≠ state → context state ≠ Some other →
     active_states (final (activate state self)) !! other = active_states self !! other)
  ∧ (∀ other, registered (final (activate state self)) other
              ↔ other = state ∨ registered self other)
  ∧ _history_states (final (activate state self)) = _history_states self
  ∧ event (final (activate state self)) = event self
  ∧ transition (final (activate state self)) = transition self.
Proof.
  split; [|split; [intros; apply activate_registered|apply activate_final_rest]].
  intros other Hne Hctx. rewrite activate_final_registry.
  destruct (context state) as [parent|].
  - rewrite lookup_alter_ne by congruence. by rewrite entered_lookup_ne.
  - by rewrite entered_lookup_ne.
Qed.

(** X2. Top-down activation keeps the registry closed under [context]: if
    the context of every active state is active, this is still so after an
    [activate] that returns. An [activate] that raises leaves a registry
    that is not closed: the state is in it and its context is not. *)
Theorem activate_parent_closed state self :
  (parent_closed context self → result (activate state self) = Return tt →
     parent_closed context (final (activate state self)))
  ∧ (∀ e, result (activate state self) = Raise e →
       ¬ parent_closed context (final (activate state self))).
Proof.
  split.
  - intros Hclosed Hok child parent Hchild Hctx.
    apply activate_registered. apply activate_registered in Hchild as [->|Hchild].
    + rewrite activate_result, Hctx in Hok. case_decide; [done|discriminate].
    + right. by apply (Hclosed child).
  - intros e Hraise Hclosed. rewrite activate_result in Hraise.
    destruct (context state) as [parent|] eqn:Hctx; [|discriminate].
    case_decide as Hparent; [discriminate|]. apply Hparent.
    apply (activate_registered state parent self), (Hclosed state); [|done].
    apply activate_registered. by left.
Qed.

(** X3. [deactivate] keeps the registry closed under [context] when the
    state has no active child; it does not look for children, and with an
    active child left behind the registry is no longer closed. *)
Theorem deactivate_parent_closed state self :
  parent_closed context self →
  (∀ child, registered self child → child ≠ state → context child = Some state → False)
  ↔ parent_closed context (final (deactivate state self)).
Proof.
  intros Hclosed. rewrite deactivate_run. unfold parent_closed, registered. simpl.
  split.
  - intros Hleaf child parent Hchild Hctx.
    destruct (decide (child = state)) as [->|Hcs]; [by rewrite lookup_delete_eq in Hchild; destruct Hchild|].
    rewrite lookup_delete_ne in Hchild by done.
    destruct (decide (parent = state)) as [->|Hps]; [by destruct (Hleaf child)|].
    rewrite lookup_delete_ne by done. by apply (Hclosed child).
  - intros Hafter child Hchild Hcs Hctx.
    specialize (Hafter child state). rewrite lookup_delete_ne in Hafter by done.
    specialize (Hafter Hchild Hctx). rewrite lookup_delete_eq in Hafter.
    by destruct Hafter.
Qed.

(** X4. Activation undone: for a state that was not active,
    [activate(state)] followed by [deactivate(state)] gives back the
    Metadata of before, but for the record of the context, which now names
    [state] as its [current_state]. This holds too when [activate] raised:
    the entry it left behind is removed and nothing else had changed. *)
Theorem activate_then_deactivate state self :
  ¬ registered self state →
  final (deactivate state (final (activate state self))) =
    match context state with
    | Some parent => with_active_states (alter (set_current_state (Some state)) parent) self
    | None => self
    end.
Proof.
  intros Hout. apply eq_None_not_Some in Hout.
  rewrite deactivate_run. cbn [final].
  destruct (activate_final_rest state self) as (Hhist & Hev & Htr).
  unfold with_active_states. rewrite Hhist, Hev, Htr, activate_final_registry.
  assert (delete state (entered state (active_states self)) = active_states self) as Hdel.
  { unfold entered. rewrite delete_alter_eq.
    assert (contains (active_states self) state = false) as -> by by apply contains_false.
    by rewrite delete_insert_id. }
  destruct (context state) as [parent|].
  - f_equal. rewrite delete_alter. case_decide as Heq.
    + subst parent. rewrite Hdel. by rewrite alter_id'.
    + by rewrite Hdel.
  - rewrite Hdel. by destruct self.
Qed.

(** X5. A refused activation stays refused: when [activate(state)] raises,
    calling it again raises the same error and leaves the same Metadata. *)
Theorem activate_failure_repeats state self e :
  result (activate state self) = Raise e →
  result (activate state (final (activate state self))) = Raise e
  ∧ final (activate state (final (activate state self))) = final (activate state self).
Proof.
  intros Hraise. rewrite activate_result in Hraise.
  destruct (context state) as [parent|] eqn:Hctx; [|discriminate].
  case_decide as Hparent; [discriminate|]. injection Hraise as <-.
  assert (active_states (final (activate state self)) = entered state (active_states self))
    as Hfirst.
  { rewrite activate_final_registry, Hctx. apply alter_id', eq_None_not_Some.
    intros Hsome. apply Hparent.
    destruct (decide (parent = state)) as [->|Hne]; [by left|right].
    unfold registered. by rewrite entered_lookup_ne in Hsome by congruence. }
  split.
  - rewrite activate_result, Hctx. rewrite decide_False; [done|].
    intros [?|Hreg]; [by apply Hparent; left|].
    apply activate_registered in Hreg. by apply Hparent.
  - destruct (activate_final_rest state (final (activate state self))) as (Hhist & Hev & Htr).
    pose proof (activate_final_registry state (final (activate state self))) as Hreg.
    rewrite Hctx in Hreg. rewrite Hfirst, entered_twice in Hreg.
    rewrite alter_id' in Hreg.
    + destruct (final (activate state (final (activate state self)))) as [a2 e2 t2 h2].
      destruct (final (activate state self)) as [a1 e1 t1 h1].
      simpl in *. congruence.
    + apply eq_None_not_Some. intros Hsome. apply Hparent.
      destruct (decide (parent = state)) as [->|Hne]; [by left|right].
      unfold registered. by rewrite entered_lookup_ne in Hsome by congruence.
Qed.

(** X6. Parent first, then child, always works: right after
    [activate(parent)], [activate(child)] returns for every child whose
    context is [parent], and this whether [activate(parent)] itself
    returned or raised. *)
Theorem activate_parent_then_child parent child self :
  context child = Some parent →
  result (activate child (final (activate parent self))) = Return tt.
Proof.
  intros Hctx. rewrite activate_result, Hctx. rewrite decide_True; [done|].
  right. apply activate_registered. by left.
Qed.

(** X7. [activate] never deactivates: with [a] active under the active
    parent [p], activating a second child [b] of [p] returns, makes [b] the
    [current_state] of [p], and leaves [a] in the registry with its record
    as it was, so that two children of [p] are active at once. *)
Theorem activate_sibling_stays_active a b p self :
  context a = Some p → context b = Some p → a ≠ b →
  registered self a → registered self p →
  result (activate b self) = Return tt
  ∧ registered (final (activate b self)) a
  ∧ registered (final (activate b self)) b
  ∧ active_states (final (activate b self)) !! a = active_states self !! a
  ∧ current_state <$> active_states (final (activate b self)) !! p = Some (Some b).
Proof.
  intros Ha Hb Hab Hrega Hregp.
  assert (p ≠ a) as Hpa by (intros ->; by apply (context_tree a)).
  assert (p ≠ b) as Hpb by (intros ->; by apply (context_tree b)).
  split; [|split; [|split; [|split]]].
  - rewrite activate_result, Hb. by rewrite decide_True by eauto.
  - apply activate_registered. by right.
  - apply activate_registered. by left.
  - rewrite activate_final_registry, Hb. rewrite lookup_alter_ne by done.
    by rewrite entered_lookup_ne.
  - rewrite activate_final_registry, Hb. rewrite lookup_alter_eq.
    rewrite entered_lookup_ne by congruence. by destruct Hregp as [pdata ->].
Qed.

(** X8. [deactivate] removes one key and nothing else, in any order: the
    states active after it are those active before but for [state]; the
    history map, the event and the transition are as before; two calls for
    two states commute, and a repeated call changes nothing more. *)
Theorem deactivate_compose a b self :
  (∀ other, registered (final (deactivate a self)) other ↔ other ≠ a ∧ registered self other)
  ∧ _history_states (final (deactivate a self)) = _history_states self
  ∧ event (final (deactivate a self)) = event self
  ∧ transition (final (deactivate a self)) = transition self
  ∧ final (deactivate a (final (deactivate b self)))
    = final (deactivate b (final (deactivate a self)))
  ∧ final (deactivate a (final (deactivate a self))) = final (deactivate a self).
Proof.
  rewrite !deactivate_run. unfold registered, with_active_states. simpl.
  split; [|split; [done|split; [done|split; [done|split]]]].
  - intros other. destruct (decide (other = a)) as [->|Hne].
    + rewrite lookup_delete_eq. split; [by intros [? ?]|by intros [? _]].
    + rewrite lookup_delete_ne by done. split; [done|by intros [_ ?]].
  - by rewrite delete_delete.
  - by rewrite delete_delete_eq.
Qed.

Lemma store_history_info_run history_state actual_state self :
  store_history_info history_state actual_state self =
    mkRun (Return tt)
      (with_history_states (<[history_state := actual_state]>) self)
      [("Store history state %s for actual state %s",
        [name history_state; name actual_state])].
Proof. done. Qed.

(** X9. [store_history_info(h, x)] always returns, changes the entry of [h]
    in the history map and no other, and leaves the registry of active
    states alone; a later store for the same [h] replaces the earlier
    one. *)
Theorem store_history_info_frame h x y self :
  result (store_history_info h x self) = Return tt
  ∧ active_states (final (store_history_info h x self)) = active_states self
  ∧ (∀ other, other ≠ h →
       _history_states (final (store_history_info h x self)) !! other
       = _history_states self !! other)
  ∧ final (store_history_info h y (final (store_history_info h x self)))
    = final (store_history_info h y self).
Proof.
  rewrite !store_history_info_run. simpl. split; [done|]. split; [done|]. split.
  - intros other Hne. by rewrite lookup_insert_ne.
  - unfold with_history_states. simpl. by rewrite insert_insert_eq.
Qed.

Lemma get_history_state_final history_state self :
  final (get_history_state history_state self) = self.
Proof.
  unfold get_history_state, mbind, M_bind, mret, M_ret, gets, raise, info.
  simpl. by destruct (_history_states self !! history_state).
Qed.

(** X10. The two queries of the history map change nothing, not even when
    [get_history_state] raises; what it raises is [KeyError] for the
    history state asked for, and the history recorded for one history
    state is not read for another. *)
Theorem history_queries_pure h self :
  final (get_history_state h self) = self
  ∧ final (has_history_info h self) = self
  ∧ (∀ e, result (get_history_state h self) = Raise e → e = KeyError h)
  ∧ (∀ h' x, h' ≠ h →
       result (get_history_state h (final (store_history_info h' x self)))
       = result (get_history_state h self)).
Proof.
  split; [apply get_history_state_final|].
  split; [by rewrite has_history_info_run|]. split.
  - intros e. rewrite get_history_state_result.
    destruct (_history_states self !! h); [discriminate|]. by intros [= <-].
  - intros h' x Hne. rewrite !get_history_state_result, store_history_info_run.
    simpl. by rewrite lookup_insert_ne.
Qed.

(** X11. [reset()] empties the two maps and nothing else: the event and
    the transition being processed stay as they were. So a Metadata that
    holds no event and no transition is after [reset()] as [__init__] made
    it, and a second [reset()] changes nothing. *)
Theorem reset_keeps_event_and_transition self :
  event (final (reset self)) = event self
  ∧ transition (final (reset self)) = transition self
  ∧ final (reset (final (reset self))) = final (reset self)
  ∧ (event self = None → transition self = None → final (reset self) = Metadata_init).
Proof.
  split; [done|]. split; [done|]. split; [done|].
  intros Hev Htr. destruct self as [a e t h]. simpl in *. by subst.
Qed.


End RuntimeTheory.

(** * Properties of Scope *)

Section ScopeTheory.

Context `{Countable K} {V : Type}.

Implicit Types (σ : Store K V) (key : K) (value : V) (ms : list ref) (mapping : ref).

Lemma dict_setitem_same mapping key value σ :
  dict_setitem mapping key value σ mapping = <[key := value]> (σ mapping).
Proof. unfold dict_setitem. apply fn_lookup_insert. Qed.

Lemma dict_setitem_other mapping other key value σ :
  other ≠ mapping → dict_setitem mapping key value σ other = σ other.
Proof. intros Hne. unfold dict_setitem. by apply fn_lookup_insert_ne. Qed.

(** The first defining layer of [mapping0 :: ms] is [mapping0] when it
    defines the key, and the first defining layer of [ms] otherwise. *)
Lemma first_defining_cons σ mapping0 ms key i mapping :
  first_defining σ (mapping0 :: ms) key i mapping →
  (i = 0 ∧ mapping = mapping0 ∧ is_Some (σ mapping0 !! key))
  ∨ (∃ i', i = S i' ∧ σ mapping0 !! key = None ∧ first_defining σ ms key i' mapping).
Proof.
  intros (Hat & Hdef & Hbefore). destruct i as [|i'].
  - left. simpl in Hat. injection Hat as <-. done.
  - right. exists i'. split; [done|]. split.
    + apply (Hbefore 0 mapping0); [lia|done].
    + split; [done|]. split; [done|].
      intros j mapping' Hj Hlook. apply (Hbefore (S j) mapping'); [lia|done].
Qed.

Lemma getitem_loop_first σ ms key i mapping :
  first_defining σ ms key i mapping →
  ∃ old, σ mapping !! key = Some old ∧ getitem_loop σ key ms = Return old.
Proof.
  revert i. induction ms as [|mapping0 ms IH]; intros i Hfirst.
  - by destruct Hfirst as [Hat _].
  - apply first_defining_cons in Hfirst
      as [(-> & -> & [old Hold])|(i' & -> & Hnone & Hrest)]; simpl.
    + exists old. by rewrite Hold.
    + rewrite Hnone. by apply (IH i').
Qed.

Lemma setitem_loop_first σ ms key value i mapping :
  first_defining σ ms key i mapping →
  setitem_loop σ key value ms = Some (dict_setitem mapping key value σ).
Proof.
  revert i. induction ms as [|mapping0 ms IH]; intros i Hfirst.
  - by destruct Hfirst as [Hat _].
  - apply first_defining_cons in Hfirst
      as [(-> & -> & Hsome)|(i' & -> & Hnone & Hrest)]; simpl.
    + unfold contains. by rewrite bool_decide_eq_true_2.
    + unfold contains. rewrite bool_decide_eq_false_2.
      * by apply (IH i').
      * rewrite Hnone. by intros [? ?].
Qed.

Lemma setitem_loop_undefined σ ms key value :
  undefined_in σ ms key → setitem_loop σ key value ms = None.
Proof.
  induction ms as [|mapping0 ms IH]; intros Hundef; [done|]. simpl.
  unfold contains. rewrite bool_decide_eq_false_2.
  - apply IH. intros mapping Hin. apply Hundef. by right.
  - rewrite (Hundef mapping0) by left. by intros [? ?].
Qed.

(** C6. Reading [key] through a Scope gives the value of the first layer
    in chain order that defines [key]; assigning [scope[key] = value]
    stores [value] under [key] in that same layer and changes no other
    dictionary; when no layer defines [key], the assignment defines it in
    layer 0, the innermost one, and changes no other dictionary. *)
Theorem Scope_first_defining_layer (self : Scope) key value σ :
  (∀ i mapping, first_defining σ (maps self) key i mapping →
     (∃ old, σ mapping !! key = Some old ∧ Scope_getitem self key σ = Return old)
     ∧ ∃ σ', Scope_setitem self key value σ = (Return tt, σ')
             ∧ σ' mapping = <[key := value]> (σ mapping)
             ∧ ∀ other, other ≠ mapping → σ' other = σ other)
  ∧ (undefined_in σ (maps self) key →
     ∀ mapping0, maps self !! 0 = Some mapping0 →
     ∃ σ', Scope_setitem self key value σ = (Return tt, σ')
           ∧ σ' mapping0 = <[key := value]> (σ mapping0)
           ∧ ∀ other, other ≠ mapping0 → σ' other = σ other).
Proof.
  split.
  - intros i mapping Hfirst. split.
    + by apply (getitem_loop_first σ (maps self) key i).
    + exists (dict_setitem mapping key value σ). unfold Scope_setitem.
      rewrite (setitem_loop_first σ (maps self) key value i mapping) by done.
      split; [done|]. split; [apply dict_setitem_same|].
      intros other Hne. by apply dict_setitem_other.
  - intros Hundef mapping0 Hhead.
    exists (dict_setitem mapping0 key value σ). unfold Scope_setitem.
    rewrite setitem_loop_undefined by done.
    destruct (maps self) as [|mapping0' rest]; [done|].
    injection Hhead as ->.
    split; [done|]. split; [apply dict_setitem_same|].
    intros other Hne. by apply dict_setitem_other.
Qed.

(** When the loop of [__setitem__] returns, it has written to a layer that
    defined the key. *)
Lemma setitem_loop_Some σ σ' ms key value :
  setitem_loop σ key value ms = Some σ' →
  ∃ mapping, is_Some (σ mapping !! key) ∧ σ' = dict_setitem mapping key value σ.
Proof.
  induction ms as [|mapping0 ms IH]; [done|]. simpl.
  destruct (contains (σ mapping0) key) eqn:Hin; [|done].
  intros [= <-]. exists mapping0. split; [|done]. by apply contains_true.
Qed.

Lemma getitem_loop_after_setitem_loop σ σ' ms key value :
  setitem_loop σ key value ms = Some σ' → getitem_loop σ' key ms = Return value.
Proof.
  induction ms as [|mapping0 ms IH]; [done|]. simpl.
  destruct (contains (σ mapping0) key) eqn:Hin.
  - intros [= <-]. by rewrite dict_setitem_same, lookup_insert_eq.
  - intros Hloop. rewrite (IH Hloop).
    apply setitem_loop_Some in Hloop as (mapping & Hsome & ->).
    apply contains_false in Hin.
    rewrite dict_setitem_other, Hin; [done|].
    intros ->. rewrite Hin in Hsome. by destruct Hsome.
Qed.

(** X15. Read after write: when [scope[key] = value] returns, [scope[key]]
    is [value], also when layers of the chain are one and the same
    dictionary. *)
Theorem Scope_getitem_after_setitem (self : Scope) key value σ σ' :
  Scope_setitem self key value σ = (Return tt, σ') →
  Scope_getitem self key σ' = Return value.
Proof.
  unfold Scope_setitem, Scope_getitem.
  destruct (setitem_loop σ key value (maps self)) as [σ1|] eqn:Hloop.
  - intros [= <-]. by apply (getitem_loop_after_setitem_loop σ).
  - destruct (maps self) as [|mapping0 rest]; [done|].
    intros [= <-]. simpl. by rewrite dict_setitem_same, lookup_insert_eq.
Qed.

(** * More on Scope *)

(** A read looks at the key asked for only. *)
Lemma getitem_loop_ext σ1 σ2 ms key :
  (∀ mapping, σ1 mapping !! key = σ2 mapping !! key) →
  getitem_loop σ1 key ms = getitem_loop σ2 key ms.
Proof.
  intros Hsame. induction ms as [|mapping0 ms IH]; [done|]. simpl.
  by rewrite Hsame, IH.
Qed.

(** The store after an assignment: one dictionary has got the key, or (on
    an empty chain) nothing has changed. *)
Lemma Scope_setitem_store (self : Scope) key value σ :
  snd (Scope_setitem self key value σ) = σ
  ∨ ∃ mapping, snd (Scope_setitem self key value σ) = dict_setitem mapping key value σ.
Proof.
  unfold Scope_setitem.
  destruct (setitem_loop σ key value (maps self)) as [σ1|] eqn:Hloop.
  - apply setitem_loop_Some in Hloop as (mapping & _ & ->). eauto.
  - destruct (maps self) as [|mapping0 rest]; simpl; eauto.
Qed.

Lemma setitem_loop_None σ ms key value :
  setitem_loop σ key value ms = None → undefined_in σ ms key.
Proof.
  induction ms as [|mapping0 ms IH]; simpl.
  - intros _ mapping Hin. by apply elem_of_nil in Hin.
  - destruct (contains (σ mapping0) key) eqn:Hin; [done|].
    intros Hloop mapping Hmem. apply elem_of_cons in Hmem as [->|Hmem].
    + by apply contains_false.
    + by apply IH.
Qed.

(** X13. A missing key: [scope[key]] raises [KeyError(key)] exactly when no
    layer of the chain defines [key]; in particular it does on a chain
    without layers. *)
Theorem Scope_getitem_missing (self : Scope) key σ :
  Scope_getitem self key σ = Raise (KeyError key) ↔ undefined_in σ (maps self) key.
Proof.
  unfold Scope_getitem, undefined_in. destruct self as [ms]. simpl.
  induction ms as [|mapping0 ms IH]; simpl.
  - split; [|done]. intros _ mapping Hin. by apply elem_of_nil in Hin.
  - destruct (σ mapping0 !! key) as [old|] eqn:Hold.
    + split; [done|]. intros Hundef. rewrite Hundef in Hold by left. done.
    + rewrite IH. split.
      * intros Hundef mapping Hin. apply elem_of_cons in Hin as [->|Hin]; auto.
      * intros Hundef mapping Hin. apply Hundef. by right.
Qed.

(** X14. An assignment through a Scope raises on a chain without layers
    only: there it raises [IndexError] and changes no dictionary; on any
    chain with a layer it returns. *)
Theorem Scope_setitem_raises_on_no_layer (self : Scope) key value σ :
  (maps self = [] →
     Scope_setitem self key value σ = (Raise (IndexError "list index out of range"), σ))
  ∧ (maps self ≠ [] → fst (Scope_setitem self key value σ) = Return tt).
Proof.
  unfold Scope_setitem. split.
  - by intros ->.
  - intros Hne. destruct (setitem_loop σ key value (maps self)); [done|].
    by destruct (maps self).
Qed.

(** X16. An assignment to [key] changes the value of no other key: read
    through this chain or through any other chain over the same
    dictionaries, every other key gives what it gave before. *)
Theorem Scope_setitem_other_keys (self other : Scope) key key' value σ :
  key' ≠ key →
  Scope_getitem other key' (snd (Scope_setitem self key value σ))
  = Scope_getitem other key' σ.
Proof.
  intros Hne. unfold Scope_getitem. apply getitem_loop_ext. intros mapping.
  destruct (Scope_setitem_store self key value σ) as [->|[written ->]]; [done|].
  destruct (decide (mapping = written)) as [->|Hdiff].
  - rewrite dict_setitem_same. by rewrite lookup_insert_ne.
  - by rewrite dict_setitem_other.
Qed.

(** X17. An assignment to a key that some layer of the chain defines makes
    no new binding: the dictionaries that define the key after it are
    those that defined it before, so an inner layer does not start to hide
    an outer one. *)
Theorem Scope_setitem_rebinds (self : Scope) key value σ mapping :
  mapping ∈ maps self → is_Some (σ mapping !! key) →
  ∀ other, is_Some (snd (Scope_setitem self key value σ) other !! key)
           ↔ is_Some (σ other !! key).
Proof.
  intros Hin Hsome other. unfold Scope_setitem.
  destruct (setitem_loop σ key value (maps self)) as [σ1|] eqn:Hloop.
  - apply setitem_loop_Some in Hloop as (written & Hwritten & ->). simpl.
    destruct (decide (other = written)) as [->|Hdiff].
    + rewrite dict_setitem_same, lookup_insert_eq. split; eauto.
    + by rewrite dict_setitem_other.
  - apply setitem_loop_None in Hloop. rewrite (Hloop mapping Hin) in Hsome.
    by destruct Hsome.
Qed.

(** X18. Chains that share a dictionary see each other's writes: when the
    first layer that defines [key] is the same dictionary in two chains,
    what is assigned to [key] through one is read through the other. *)
Theorem Scope_setitem_seen_through_shared_layer (self other : Scope) key value σ i j mapping :
  first_defining σ (maps self) key i mapping →
  first_defining σ (maps other) key j mapping →
  Scope_getitem other key (snd (Scope_setitem self key value σ)) = Return value.
Proof.
  intros Hself (Hat & Hdef & Hbefore). unfold Scope_setitem.
  rewrite (setitem_loop_first σ (maps self) key value i mapping) by done. simpl.
  assert (first_defining (dict_setitem mapping key value σ) (maps other) key j mapping)
    as Hafter.
  { split; [done|]. split.
    - rewrite dict_setitem_same, lookup_insert_eq. eauto.
    - intros j' mapping' Hj Hlook.
      assert (σ mapping' !! key = None) as Hnone by by apply (Hbefore j').
      rewrite dict_setitem_other; [done|].
      intros ->. rewrite Hnone in Hdef. by destruct Hdef. }
  apply getitem_loop_first in Hafter as (now & Hnow & Hread).
  rewrite dict_setitem_same, lookup_insert_eq in Hnow. unfold Scope_getitem.
  congruence.
Qed.

End ScopeTheory.

(** * The theorems at work on the keyboard chart *)

Lemma keyboard_context_tree (state : positive) : Keyboard.context state ≠ Some state.
Proof.
  unfold Keyboard.context.
  destruct state as [[[?|?|]|[?|?|]|]|[[?|?|]|[?|?|]|]|]; discriminate.
Qed.

Lemma keyboard_fresh_unregistered (state : positive) : ¬ registered Keyboard.fresh state.
Proof. unfold registered. simpl. rewrite lookup_empty. by intros [? ?]. Qed.

(** At the start nothing is active, so [caps_lock] is refused; once the
    chart is started, [caps_lock_on] is accepted; the root has no context
    and is accepted at the start. *)
Lemma activate_parent_must_be_active_witness :
  result (activate Keyboard.name Keyboard.context Keyboard.caps_lock Keyboard.fresh)
    = Raise (RuntimeError "Parent state not activated")
  ∧ result (activate Keyboard.name Keyboard.context Keyboard.caps_lock_on Keyboard.started)
    = Return tt
  ∧ result (activate Keyboard.name Keyboard.context Keyboard.statechart Keyboard.fresh)
    = Return tt.
Proof.
  split; [|split].
  - apply (proj1 (activate_parent_must_be_active Keyboard.name Keyboard.context
                    keyboard_context_tree Keyboard.caps_lock Keyboard.fresh)
             Keyboard.keyboard eq_refl).
    apply keyboard_fresh_unregistered.
  - apply (proj1 (activate_parent_must_be_active Keyboard.name Keyboard.context
                    keyboard_context_tree Keyboard.caps_lock_on Keyboard.started)
             Keyboard.caps_lock eq_refl).
    unfold registered. vm_compute. eauto.
  - apply (proj2 (activate_parent_must_be_active Keyboard.name Keyboard.context
                    keyboard_context_tree Keyboard.statechart Keyboard.fresh)).
    reflexivity.
Defined.

Lemma activate_success_records_witness :
  (∃ data, active_states (final (activate Keyboard.name Keyboard.context
                                   Keyboard.caps_lock_on Keyboard.started))
             !! Keyboard.caps_lock_on = Some data
           ∧ current_state data = None
           ∧ state_set data
             = from_option state_set []
                 (active_states Keyboard.started !! Keyboard.caps_lock_on))
  ∧ (∀ parent, Keyboard.context Keyboard.caps_lock_on = Some parent →
       ∃ pdata, active_states (final (activate Keyboard.name Keyboard.context
                                        Keyboard.caps_lock_on Keyboard.started))
                  !! parent = Some pdata
                ∧ current_state pdata = Some Keyboard.caps_lock_on).
Proof.
  apply (activate_success_records Keyboard.name Keyboard.context keyboard_context_tree
           Keyboard.caps_lock_on Keyboard.started).
  vm_compute. reflexivity.
Defined.

Lemma activate_idempotent_witness :
  result (activate Keyboard.name Keyboard.context Keyboard.caps_lock_on
            (final (activate Keyboard.name Keyboard.context Keyboard.caps_lock_on
                      Keyboard.started))) = Return tt
  ∧ final (activate Keyboard.name Keyboard.context Keyboard.caps_lock_on
             (final (activate Keyboard.name Keyboard.context Keyboard.caps_lock_on
                       Keyboard.started)))
    = final (activate Keyboard.name Keyboard.context Keyboard.caps_lock_on Keyboard.started).
Proof.
  apply (activate_idempotent Keyboard.name Keyboard.context
           Keyboard.caps_lock_on Keyboard.started).
  vm_compute. reflexivity.
Defined.

(** [caps_lock] activated before its parent: the call raises, and
    [caps_lock], inactive before, is active after. *)
Lemma activate_failure_leaves_state_active_witness :
  result (is_active Keyboard.name Keyboard.caps_lock Keyboard.fresh) = Return false
  ∧ registered (final (activate Keyboard.name Keyboard.context Keyboard.caps_lock
                         Keyboard.fresh)) Keyboard.caps_lock
  ∧ result (is_active Keyboard.name Keyboard.caps_lock
              (final (activate Keyboard.name Keyboard.context Keyboard.caps_lock
                        Keyboard.fresh))) = Return true.
Proof.
  split; [vm_compute; reflexivity|].
  apply (activate_failure_leaves_state_active Keyboard.name Keyboard.context
           Keyboard.caps_lock Keyboard.fresh (RuntimeError "Parent state not activated")).
  vm_compute. reflexivity.
Defined.

Lemma deactivate_then_inactive_witness :
  final (deactivate Keyboard.name Keyboard.caps_lock_on Keyboard.started) = Keyboard.started.
Proof.
  apply (deactivate_then_inactive Keyboard.name Keyboard.caps_lock_on Keyboard.started).
  unfold registered. vm_compute. intros [? ?]. discriminate.
Defined.

(** [caps_lock] is deactivated under [keyboard], whose record names it. *)
Lemma deactivate_keeps_parent_record_witness :
  active_states (final (deactivate Keyboard.name Keyboard.caps_lock Keyboard.started))
    !! Keyboard.keyboard
    = Some {| current_state := Some Keyboard.caps_lock; state_set := [] |}
  ∧ current_state <$>
      active_states (final (deactivate Keyboard.name Keyboard.caps_lock Keyboard.started))
        !! Keyboard.keyboard
    = Some (Some Keyboard.caps_lock)
  ∧ active_states (final (deactivate Keyboard.name Keyboard.caps_lock Keyboard.started))
      !! Keyboard.caps_lock = None
  ∧ (∀ other, other ≠ Keyboard.caps_lock →
       active_states (final (deactivate Keyboard.name Keyboard.caps_lock Keyboard.started))
         !! other = active_states Keyboard.started !! other)
  ∧ _history_states (final (deactivate Keyboard.name Keyboard.caps_lock Keyboard.started))
    = _history_states Keyboard.started.
Proof.
  apply (deactivate_keeps_parent_record Keyboard.name Keyboard.context keyboard_context_tree
           Keyboard.caps_lock Keyboard.keyboard
           {| current_state := Some Keyboard.caps_lock; state_set := [] |} Keyboard.started).
  - reflexivity.
  - vm_compute. reflexivity.
  - reflexivity.
Defined.

(** In [Keyboard.scope] the key "y" is first defined by layer 1, the
    chart's dictionary: it is read from there and written there. *)
Lemma keyboard_y_first_defined :
  first_defining Keyboard.layers (maps Keyboard.scope) "y" 1 1%positive.
Proof.
  split; [reflexivity|]. split; [vm_compute; eauto|].
  intros j mapping' Hj Hlook. destruct j as [|j]; [|lia].
  injection Hlook as <-. vm_compute. reflexivity.
Qed.

(** No layer of [Keyboard.scope] defines "z". *)
Lemma keyboard_z_undefined : undefined_in Keyboard.layers (maps Keyboard.scope) "z".
Proof.
  intros mapping Hin. simpl in Hin.
  apply elem_of_cons in Hin as [->|Hin]; [by vm_compute|].
  apply elem_of_cons in Hin as [->|Hin]; [by vm_compute|].
  by apply elem_of_nil in Hin.
Qed.

Lemma Scope_first_defining_layer_witness :
  ((∃ old, Keyboard.layers 1%positive !! "y" = Some old
           ∧ Scope_getitem Keyboard.scope "y" Keyboard.layers = Return old)
   ∧ ∃ σ', Scope_setitem Keyboard.scope "y" 5%Z Keyboard.layers = (Return tt, σ')
           ∧ σ' 1%positive = <["y" := 5%Z]> (Keyboard.layers 1%positive)
           ∧ ∀ other, other ≠ 1%positive → σ' other = Keyboard.layers other)
  ∧ ∃ σ', Scope_setitem Keyboard.scope "z" 5%Z Keyboard.layers = (Return tt, σ')
          ∧ σ' 2%positive = <["z" := 5%Z]> (Keyboard.layers 2%positive)
          ∧ ∀ other, other ≠ 2%positive → σ' other = Keyboard.layers other.
Proof.
  split.
  - apply (proj1 (Scope_first_defining_layer Keyboard.scope "y" 5%Z Keyboard.layers)
             1 1%positive).
    apply keyboard_y_first_defined.
  - apply (proj2 (Scope_first_defining_layer Keyboard.scope "z" 5%Z Keyboard.layers)
             keyboard_z_undefined 2%positive).
    reflexivity.
Defined.

(** * The further theorems at work on the keyboard chart *)

Lemma keyboard_started_registered (state : positive) :
  registered Keyboard.started state
  ↔ state = Keyboard.caps_lock ∨ state = Keyboard.keyboard ∨ state = Keyboard.statechart.
Proof.
  unfold Keyboard.started. rewrite !activate_registered.
  pose proof (keyboard_fresh_unregistered state). tauto.
Qed.

Lemma keyboard_started_closed : parent_closed Keyboard.context Keyboard.started.
Proof.
  intros state parent Hreg Hctx. apply keyboard_started_registered.
  apply keyboard_started_registered in Hreg as [-> | [-> | ->]];
    simpl in Hctx; [| |discriminate]; injection Hctx as <-; auto.
Qed.

Lemma activate_frame_witness :
  active_states (final (activate Keyboard.name Keyboard.context Keyboard.caps_lock_on
                          Keyboard.started)) !! Keyboard.keyboard
  = active_states Keyboard.started !! Keyboard.keyboard.
Proof.
  apply (proj1 (activate_frame Keyboard.name Keyboard.context Keyboard.caps_lock_on
                  Keyboard.started)); discriminate.
Defined.

(** Entering [caps_lock_on] keeps the started chart closed; entering
    [caps_lock] into an empty registry leaves it not closed. *)
Lemma activate_parent_closed_witness :
  parent_closed Keyboard.context
    (final (activate Keyboard.name Keyboard.context Keyboard.caps_lock_on Keyboard.started))
  ∧ ¬ parent_closed Keyboard.context
        (final (activate Keyboard.name Keyboard.context Keyboard.caps_lock Keyboard.fresh)).
Proof.
  split.
  - apply (proj1 (activate_parent_closed Keyboard.name Keyboard.context
                    Keyboard.caps_lock_on Keyboard.started)).
    + apply keyboard_started_closed.
    + vm_compute. reflexivity.
  - apply (proj2 (activate_parent_closed Keyboard.name Keyboard.context
                    Keyboard.caps_lock Keyboard.fresh)
             (RuntimeError "Parent state not activated")).
    vm_compute. reflexivity.
Defined.

Lemma deactivate_parent_closed_witness :
  parent_closed Keyboard.context
    (final (deactivate Keyboard.name Keyboard.caps_lock Keyboard.started)).
Proof.
  apply (proj1 (deactivate_parent_closed Keyboard.name Keyboard.context
                  Keyboard.caps_lock Keyboard.started keyboard_started_closed)).
  intros child Hreg Hne Hctx.
  apply keyboard_started_registered in Hreg as [-> | [-> | ->]]; [done|discriminate..].
Defined.

(** Entering and leaving [caps_lock_on]: the started chart is back, with
    [caps_lock] still naming the state that was left. *)
Lemma activate_then_deactivate_witness :
  final (deactivate Keyboard.name Keyboard.caps_lock_on
           (final (activate Keyboard.name Keyboard.context Keyboard.caps_lock_on
                     Keyboard.started)))
  = with_active_states
      (alter (set_current_state (Some Keyboard.caps_lock_on)) Keyboard.caps_lock)
      Keyboard.started.
Proof.
  apply (activate_then_deactivate Keyboard.name Keyboard.context
           Keyboard.caps_lock_on Keyboard.started).
  intros Hreg. by apply keyboard_started_registered in Hreg as [?|[?|?]].
Defined.

Lemma activate_failure_repeats_witness :
  result (activate Keyboard.name Keyboard.context Keyboard.caps_lock
            (final (activate Keyboard.name Keyboard.context Keyboard.caps_lock
                      Keyboard.fresh)))
  = Raise (RuntimeError "Parent state not activated")
  ∧ final (activate Keyboard.name Keyboard.context Keyboard.caps_lock
             (final (activate Keyboard.name Keyboard.context Keyboard.caps_lock
                       Keyboard.fresh)))
    = final (activate Keyboard.name Keyboard.context Keyboard.caps_lock Keyboard.fresh).
Proof.
  apply (activate_failure_repeats Keyboard.name Keyboard.context
           Keyboard.caps_lock Keyboard.fresh).
  vm_compute. reflexivity.
Defined.

(** [keyboard] is refused at the start, its parent being inactive, and
    [caps_lock] is accepted right after that. *)
Lemma activate_parent_then_child_witness :
  result (activate Keyboard.name Keyboard.context Keyboard.keyboard Keyboard.fresh)
  = Raise (RuntimeError "Parent state not activated")
  ∧ result (activate Keyboard.name Keyboard.context Keyboard.caps_lock
              (final (activate Keyboard.name Keyboard.context Keyboard.keyboard
                        Keyboard.fresh)))
    = Return tt.
Proof.
  split; [vm_compute; reflexivity|].
  apply (activate_parent_then_child Keyboard.name Keyboard.context
           Keyboard.keyboard Keyboard.caps_lock Keyboard.fresh).
  reflexivity.
Defined.

(** [caps_lock_off] entered while [caps_lock_on] is active: both are. *)
Lemma activate_sibling_stays_active_witness :
  result (activate Keyboard.name Keyboard.context Keyboard.caps_lock_off Keyboard.caps_on)
  = Return tt
  ∧ registered (final (activate Keyboard.name Keyboard.context Keyboard.caps_lock_off
                         Keyboard.caps_on)) Keyboard.caps_lock_on
  ∧ registered (final (activate Keyboard.name Keyboard.context Keyboard.caps_lock_off
                         Keyboard.caps_on)) Keyboard.caps_lock_off
  ∧ active_states (final (activate Keyboard.name Keyboard.context Keyboard.caps_lock_off
                            Keyboard.caps_on)) !! Keyboard.caps_lock_on
    = active_states Keyboard.caps_on !! Keyboard.caps_lock_on
  ∧ current_state <$>
      active_states (final (activate Keyboard.name Keyboard.context Keyboard.caps_lock_off
                              Keyboard.caps_on)) !! Keyboard.caps_lock
    = Some (Some Keyboard.caps_lock_off).
Proof.
  apply (activate_sibling_stays_active Keyboard.name Keyboard.context
           keyboard_context_tree Keyboard.caps_lock_on Keyboard.caps_lock_off
           Keyboard.caps_lock Keyboard.caps_on).
  - reflexivity.
  - reflexivity.
  - discriminate.
  - unfold registered. vm_compute. eauto.
  - unfold registered. vm_compute. eauto.
Defined.

(** What is stored for [history] does not show under [caps_lock]. *)
Lemma store_history_info_frame_witness :
  _history_states (final (store_history_info Keyboard.name Keyboard.history
                            Keyboard.caps_lock_on Keyboard.started))
    !! Keyboard.caps_lock
  = _history_states Keyboard.started !! Keyboard.caps_lock.
Proof.
  apply (proj1 (proj2 (proj2 (store_history_info_frame Keyboard.name Keyboard.history
                                Keyboard.caps_lock_on Keyboard.caps_lock_off
                                Keyboard.started)))).
  discriminate.
Defined.

(** What is stored for [caps_lock] is not read for [history]. *)
Lemma history_queries_pure_witness :
  result (get_history_state Keyboard.name Keyboard.history
            (final (store_history_info Keyboard.name Keyboard.caps_lock
                      Keyboard.caps_lock_on Keyboard.started)))
  = result (get_history_state Keyboard.name Keyboard.history Keyboard.started).
Proof.
  apply (proj2 (proj2 (proj2 (history_queries_pure Keyboard.name Keyboard.history
                                Keyboard.started)))).
  discriminate.
Defined.

Lemma reset_keeps_event_and_transition_witness :
  final (reset Keyboard.started) = Keyboard.fresh.
Proof.
  apply (proj2 (proj2 (proj2 (reset_keeps_event_and_transition Keyboard.started))));
    vm_compute; reflexivity.
Defined.

Lemma Scope_setitem_raises_on_no_layer_witness :
  Scope_setitem Keyboard.no_scope "x" 5%Z Keyboard.layers
  = (Raise (IndexError "list index out of range"), Keyboard.layers)
  ∧ fst (Scope_setitem Keyboard.scope "x" 5%Z Keyboard.layers) = Return tt.
Proof.
  split.
  - apply (proj1 (Scope_setitem_raises_on_no_layer Keyboard.no_scope "x" 5%Z
                    Keyboard.layers)).
    reflexivity.
  - apply (proj2 (Scope_setitem_raises_on_no_layer Keyboard.scope "x" 5%Z
                    Keyboard.layers)).
    discriminate.
Defined.

Lemma Scope_getitem_after_setitem_witness :
  Scope_getitem Keyboard.scope "y"
    (snd (Scope_setitem Keyboard.scope "y" 5%Z Keyboard.layers))
  = Return 5%Z.
Proof.
  apply (Scope_getitem_after_setitem Keyboard.scope "y" 5%Z Keyboard.layers).
  reflexivity.
Defined.

Lemma Scope_setitem_other_keys_witness :
  Scope_getitem Keyboard.chart_scope "x"
    (snd (Scope_setitem Keyboard.scope "y" 5%Z Keyboard.layers))
  = Scope_getitem Keyboard.chart_scope "x" Keyboard.layers.
Proof.
  apply (Scope_setitem_other_keys Keyboard.scope Keyboard.chart_scope "y" "x" 5%Z
           Keyboard.layers).
  discriminate.
Defined.

(** "y" is the chart's variable: assigned through the inner chain it stays
    the chart's, and the state's dictionary does not get it. *)
Lemma Scope_setitem_rebinds_witness :
  is_Some (snd (Scope_setitem Keyboard.scope "y" 5%Z Keyboard.layers) 2%positive !! "y")
  ↔ is_Some (Keyboard.layers 2%positive !! "y").
Proof.
  apply (Scope_setitem_rebinds Keyboard.scope "y" 5%Z Keyboard.layers 1%positive).
  - simpl. apply elem_of_cons. right. apply elem_of_cons. by left.
  - vm_compute. eauto.
Defined.

(** "y" assigned through the state's chain is read through the chart's. *)
Lemma Scope_setitem_seen_through_shared_layer_witness :
  Scope_getitem Keyboard.chart_scope "y"
    (snd (Scope_setitem Keyboard.scope "y" 5%Z Keyboard.layers))
  = Return 5%Z.
Proof.
  apply (Scope_setitem_seen_through_shared_layer Keyboard.scope Keyboard.chart_scope
           "y" 5%Z Keyboard.layers 1 0 1%positive).
  - apply keyboard_y_first_defined.
  - split; [reflexivity|]. split; [vm_compute; eauto|]. intros j mapping' Hj. lia.
Defined.
